(** * basic_rust_server: request parsing, path resolution and response writing

    A shallow embedding of [src/src/request.rs] ([Request::new],
    [Request::path_exists], [Request::normalize_path_string]) and of
    [src/src/helpers.rs] ([handle_connection]), together with the parts of
    the Rust standard library and of the operating system they rely on:
    the TCP stream read through a [BufReader], UTF-8 decoding of a line,
    [split_ascii_whitespace] and [trim], path canonicalization ([realpath])
    over a file-system tree, [File::open] and the bytes written through a
    [BufWriter].

    Text is modelled as it is in Rust: a [String] is a list of Unicode
    scalar values (code points, as [N]); bytes on the wire and in files
    are lists of [N] in [0, 255]. *)

From Stdlib Require Import String Ascii.
From Stdlib Require Import List NArith Bool Arith Lia.
Import ListNotations.

(* ------------------------------------------------------------------ *)
(** ** Results and I/O errors *)

(** Rust's [Result<A, E>]. *)
Inductive result (A E : Type) : Type :=
| Ok (a : A)
| Err (e : E).
Arguments Ok {A E} a.
Arguments Err {A E} e.

(** The [std::io::Error] kinds that can occur in this program. *)
Inductive io_error : Type :=
| NotFound            (* ENOENT *)
| NotADirectory       (* ENOTDIR *)
| FilesystemLoop      (* ELOOP: too many levels of symbolic links *)
| InvalidData         (* "stream did not contain valid UTF-8" *)
| IsADirectory        (* EISDIR: reading an opened directory *)
| ConnectionReset.    (* a failing read on the TCP stream *)

(* ------------------------------------------------------------------ *)
(** ** Characters and strings *)

(** ASCII literals of the source as lists of code points. *)
Definition s2l (s : String.string) : list N :=
  map (fun a => N.of_nat (Ascii.nat_of_ascii a)) (String.list_ascii_of_string s).
Arguments s2l s%_string.

Fixpoint str_eqb (a b : list N) : bool :=
  match a, b with
  | [], [] => true
  | x :: a', y :: b' => N.eqb x y && str_eqb a' b'
  | _, _ => false
  end.

Definition is_empty {A} (l : list A) : bool :=
  match l with [] => true | _ => false end.

(** [u8::is_ascii_whitespace]: U+0020, U+0009, U+000A, U+000C, U+000D
    (not U+000B). *)
Definition is_ascii_whitespace (c : N) : bool :=
  (c =? 32)%N || (c =? 9)%N || (c =? 10)%N || (c =? 12)%N || (c =? 13)%N.

(** [char::is_whitespace]: the Unicode [White_Space] property. *)
Definition is_whitespace (c : N) : bool :=
  ((9 <=? c)%N && (c <=? 13)%N) || (c =? 32)%N || (c =? 133)%N
  || (c =? 160)%N || (c =? 5760)%N
  || ((8192 <=? c)%N && (c <=? 8202)%N)
  || (c =? 8232)%N || (c =? 8233)%N || (c =? 8239)%N || (c =? 8287)%N
  || (c =? 12288)%N.

(** [str::split] on a character predicate: every piece, empty ones
    included. *)
Fixpoint split_on (p : N -> bool) (s : list N) : list (list N) :=
  match s with
  | [] => [[]]
  | c :: r =>
      if p c then [] :: split_on p r
      else match split_on p r with
           | w :: ws => (c :: w) :: ws
           | [] => [[c]]
           end
  end.

(** [str::split_ascii_whitespace]: the pieces between ASCII whitespace,
    empty pieces dropped (the library filters [split] by non-emptiness). *)
Definition split_ascii_whitespace (s : list N) : list (list N) :=
  filter (fun w => negb (is_empty w)) (split_on is_ascii_whitespace s).

Fixpoint trim_start (s : list N) : list N :=
  match s with
  | [] => []
  | c :: r => if is_whitespace c then trim_start r else s
  end.

Definition trim_end (s : list N) : list N := rev (trim_start (rev s)).

(** [str::trim]: leading and trailing [White_Space] removed. *)
Definition trim (s : list N) : list N := trim_end (trim_start s).

(** The text before the first [c] (all of it when there is none). *)
Fixpoint before_char (c : N) (s : list N) : list N :=
  match s with
  | [] => []
  | x :: r => if (x =? c)%N then [] else x :: before_char c r
  end.

(** [String::from_utf8]: strict UTF-8 decoding (no overlong forms, no
    surrogates, nothing above U+10FFFF). *)
Definition is_cont (b : N) : bool := (128 <=? b)%N && (b <=? 191)%N.

Definition cont_bits (b : N) : N := N.land b 63.

Fixpoint utf8_decode (bs : list N) : option (list N) :=
  match bs with
  | [] => Some []
  | b0 :: r =>
      if (b0 <? 128)%N then option_map (cons b0) (utf8_decode r)
      else if (194 <=? b0)%N && (b0 <=? 223)%N then
        match r with
        | b1 :: r1 =>
            if is_cont b1
            then option_map
                   (cons (N.lor (N.shiftl (N.land b0 31) 6) (cont_bits b1)))
                   (utf8_decode r1)
            else None
        | [] => None
        end
      else if (224 <=? b0)%N && (b0 <=? 239)%N then
        match r with
        | b1 :: b2 :: r2 =>
            let lo := if (b0 =? 224)%N then 160%N else 128%N in
            let hi := if (b0 =? 237)%N then 159%N else 191%N in
            if (lo <=? b1)%N && (b1 <=? hi)%N && is_cont b2
            then option_map
                   (cons (N.lor (N.shiftl (N.land b0 15) 12)
                           (N.lor (N.shiftl (cont_bits b1) 6) (cont_bits b2))))
                   (utf8_decode r2)
            else None
        | _ => None
        end
      else if (240 <=? b0)%N && (b0 <=? 244)%N then
        match r with
        | b1 :: b2 :: b3 :: r3 =>
            let lo := if (b0 =? 240)%N then 144%N else 128%N in
            let hi := if (b0 =? 244)%N then 143%N else 191%N in
            if (lo <=? b1)%N && (b1 <=? hi)%N && is_cont b2 && is_cont b3
            then option_map
                   (cons (N.lor (N.shiftl (N.land b0 7) 18)
                           (N.lor (N.shiftl (cont_bits b1) 12)
                              (N.lor (N.shiftl (cont_bits b2) 6)
                                 (cont_bits b3)))))
                   (utf8_decode r3)
            else None
        | _ => None
        end
      else None
  end.

(* ------------------------------------------------------------------ *)
(** ** The TCP stream and [BufReader::lines] *)

(** What the peer delivers, in arrival order: each [read] on the socket
    returns (a prefix of) the next chunk; [Broken] is a failing read. *)
Inductive chunk : Type :=
| Data (payload : list N)
| Broken (e : io_error).

Definition tcp := list chunk.

(** The bytes a stream still delivers. *)
Fixpoint stream_bytes (s : tcp) : list N :=
  match s with
  | [] => []
  | Data d :: s' => d ++ stream_bytes s'
  | Broken _ :: s' => stream_bytes s'
  end.

(** [std::io::DEFAULT_BUF_SIZE], the capacity of [BufReader::new]. *)
Definition DEFAULT_BUF_SIZE : nat := 8 * 1024.

(** [TcpStream::read] into a buffer of [cap] bytes; [Ok []] is end of
    stream. *)
Definition tcp_read (cap : nat) (s : tcp) : result (list N) io_error * tcp :=
  match s with
  | [] => (Ok [], [])
  | Broken e :: s' => (Err e, s')
  | Data d :: s' =>
      if Nat.leb (length d) cap then (Ok d, s')
      else (Ok (firstn cap d), Data (skipn cap d) :: s')
  end.

(** A [BufReader]: its internal buffer and the stream below it. *)
Record bufreader : Type := {
  br_buf : list N;
  br_inner : tcp
}.

Definition bufreader_new (s : tcp) : bufreader :=
  {| br_buf := []; br_inner := s |}.

(** [BufRead::fill_buf]: refill from the stream when the buffer is empty. *)
Definition fill_buf (r : bufreader) : result (list N) io_error * bufreader :=
  match br_buf r with
  | [] =>
      let (res, s') := tcp_read DEFAULT_BUF_SIZE (br_inner r) in
      match res with
      | Ok d => (Ok d, {| br_buf := d; br_inner := s' |})
      | Err e => (Err e, {| br_buf := []; br_inner := s' |})
      end
  | b => (Ok b, r)
  end.

(** [BufRead::consume]. *)
Definition consume (n : nat) (r : bufreader) : bufreader :=
  {| br_buf := skipn n (br_buf r); br_inner := br_inner r |}.

(** [memchr]: index of the first [d]. *)
Fixpoint memchr (d : N) (l : list N) : option nat :=
  match l with
  | [] => None
  | x :: l' => if (x =? d)%N then Some 0 else option_map S (memchr d l')
  end.

(** The loop of [std::io::read_until]; [fuel] bounds the number of
    iterations (see [read_until]). *)
Fixpoint read_until_loop (fuel : nat) (delim : N) (r : bufreader)
    (acc : list N) : result (list N) io_error * bufreader :=
  match fuel with
  | O => (Ok acc, r)
  | S fuel' =>
      match fill_buf r with
      | (Err e, r') => (Err e, r')
      | (Ok available, r') =>
          match memchr delim available with
          | Some i => (Ok (acc ++ firstn (S i) available), consume (S i) r')
          | None =>
              let used := length available in
              let r'' := consume used r' in
              if Nat.eqb used 0 then (Ok acc, r'')
              else read_until_loop fuel' delim r'' (acc ++ available)
          end
      end
  end.

(** Every iteration that does not stop consumes at least one byte or one
    chunk, so this many iterations always suffice. *)
Fixpoint tcp_measure (s : tcp) : nat :=
  match s with
  | [] => 0
  | Data d :: s' => S (length d) + tcp_measure s'
  | Broken _ :: s' => S (tcp_measure s')
  end.

(** [BufRead::read_until]: the bytes read, the delimiter included. *)
Definition read_until (delim : N) (r : bufreader)
    : result (list N) io_error * bufreader :=
  read_until_loop (S (length (br_buf r) + tcp_measure (br_inner r))) delim r [].

Definition ends_with (c : N) (s : list N) : bool :=
  match rev s with
  | x :: _ => (x =? c)%N
  | [] => false
  end.

(** The end-of-line handling of [Lines::next]: drop a final ["\n"], then a
    final ["\r"]. *)
Definition strip_newline (s : list N) : list N :=
  if ends_with 10 s then
    let s1 := removelast s in
    if ends_with 13 s1 then removelast s1 else s1
  else s.

(** [Lines::next] on a [BufReader] ([read_line] = [read_until b'\n']
    followed by the UTF-8 check). *)
Definition lines_next (r : bufreader)
    : option (result (list N) io_error) * bufreader :=
  match read_until 10 r with
  | (Err e, r') => (Some (Err e), r')
  | (Ok bs, r') =>
      match bs with
      | [] => (None, r')
      | _ =>
          match utf8_decode bs with
          | None => (Some (Err InvalidData), r')
          | Some cs => (Some (Ok (strip_newline cs)), r')
          end
      end
  end.

(* ------------------------------------------------------------------ *)
(** ** [Request] and [Request::new] (request.rs, lines 13-87) *)

Record Request : Type := {
  url : list N;
  method : list N;
  version : list N
}.

Inductive RequestError : Type :=
| EmptyRequest
| InvalidLength
| Io (e : io_error)
| InvalidHeader
| InvalidURL.

(** request.rs lines 68-86: splitting, validating and building. *)
Definition parse_request_line (request : list N) : result Request RequestError :=
  let data := map trim (split_ascii_whitespace request) in
  if negb (Nat.eqb (length data) 3) then Err InvalidLength
  else if negb (str_eqb (nth 0 data []) (s2l "GET")
                && str_eqb (nth 2 data []) (s2l "HTTP/1.1"))
  then Err InvalidHeader
  else Ok {| url := nth 1 data [];
             method := nth 0 data [];
             version := nth 2 data [] |}.

(** The first line of the stream, as [request_buf.lines().next()] sees it,
    with the reader left behind. *)
Definition first_line (s : tcp)
    : option (result (list N) io_error) * bufreader :=
  lines_next (bufreader_new s).

(** [Request::new]; the second component is what is left unread on the
    connection once the [BufReader] is dropped. *)
Definition request_new (s : tcp) : result Request RequestError * tcp :=
  let (next, r) := first_line s in
  (match next with
   | None => Err EmptyRequest
   | Some (Err e) => Err (Io e)
   | Some (Ok request) => parse_request_line request
   end, br_inner r).

(* ------------------------------------------------------------------ *)
(** ** The file system and [Path::canonicalize] *)

(** A path component (a file name) and an absolute path as its list of
    components from the root. *)
Definition name := list N.
Definition path := list name.

(** What a path names on disk. A symbolic link stores its target, absolute
    or relative to the directory holding the link. *)
Inductive node : Type :=
| File (contents : list N)
| Dir
| Symlink (absolute : bool) (target : path).

(** The operating-system state the server sees: the file-system tree and
    the working directory (canonical) that relative paths start from. *)
Record env : Type := {
  env_fs : list (path * node);
  env_cwd : path
}.

Fixpoint path_eqb (p q : path) : bool :=
  match p, q with
  | [], [] => true
  | a :: p', b :: q' => str_eqb a b && path_eqb p' q'
  | _, _ => false
  end.

Fixpoint assoc_lookup (fs : list (path * node)) (p : path) : option node :=
  match fs with
  | [] => None
  | (q, n) :: fs' => if path_eqb q p then Some n else assoc_lookup fs' p
  end.

(** The root is always a directory. *)
Definition lookup_node (fs : list (path * node)) (p : path) : option node :=
  match p with
  | [] => Some Dir
  | _ => assoc_lookup fs p
  end.

Definition is_cur_dir (c : name) : bool := is_empty c || str_eqb c (s2l ".").
Definition is_parent_dir (c : name) : bool := str_eqb c (s2l "..").

(** One pass of [realpath] over the components [comps], starting in the
    directory [cur]; a symbolic link is handed to [k] together with the
    components still to resolve. ["."] and empty components are skipped,
    [".."] goes to the parent ([".."] of the root is the root), and a file
    followed by further components is [ENOTDIR]. *)
Fixpoint walk (k : path -> path -> result path io_error)
    (fs : list (path * node)) (cur : path) (comps : path)
    : result path io_error :=
  match comps with
  | [] => Ok cur
  | c :: rest =>
      if is_cur_dir c then walk k fs cur rest
      else if is_parent_dir c then walk k fs (removelast cur) rest
      else match lookup_node fs (cur ++ [c]) with
           | None => Err NotFound
           | Some Dir => walk k fs (cur ++ [c]) rest
           | Some (File _) =>
               match rest with
               | [] => Ok (cur ++ [c])
               | _ => Err NotADirectory
               end
           | Some (Symlink abs target) =>
               k (if abs then [] else cur) (target ++ rest)
           end
  end.

(** [realpath] with at most [fuel - 1] symbolic links followed. *)
Fixpoint resolve (fuel : nat) (fs : list (path * node)) (cur : path)
    (comps : path) : result path io_error :=
  match fuel with
  | O => Err FilesystemLoop
  | S fuel' => walk (resolve fuel' fs) fs cur comps
  end.

(** Linux's limit on the symbolic links followed by one lookup. *)
Definition MAXSYMLINKS : nat := 40.

(** A [Path] as the program builds it: whether it is absolute, and its
    components. *)
Definition pathbuf := (bool * path)%type.

(** [Path::canonicalize] ([realpath]): relative paths start at the working
    directory; the empty path (the one [""] gives) fails with [ENOENT]. *)
Definition canonicalize (e : env) (p : pathbuf) : result path io_error :=
  if negb (fst p) && forallb is_empty (snd p) then Err NotFound
  else resolve (S MAXSYMLINKS) (env_fs e) (if fst p then [] else env_cwd e) (snd p).

Definition is_slash (c : N) : bool := (c =? 47)%N.

(** [PathBuf::from] a string. *)
Definition path_of_str (s : list N) : pathbuf :=
  (match s with c :: _ => is_slash c | [] => false end, split_on is_slash s).

(** [PathBuf::push] of a relative component without ['/'] (the only kind
    this program pushes): it is appended. *)
Definition pathbuf_push (p : path) (element : name) : path := p ++ [element].

(** [Path::file_stem]: the name up to its last ['.'], unless that dot
    starts the name. *)
Definition file_stem (f : name) : name :=
  match memchr 46 (rev f) with
  | None => f
  | Some i =>
      let before := firstn (length f - S i) f in
      if is_empty before then f else before
  end.

(** [PathBuf::set_extension]: replace the extension of the last component
    (no change when there is no file name). *)
Definition set_extension (p : path) (ext : list N) : path :=
  match rev p with
  | [] => p
  | last :: rprefix =>
      if is_cur_dir last || is_parent_dir last then p
      else rev rprefix
           ++ [file_stem last ++ (if is_empty ext then [] else 46%N :: ext)]
  end.

(** [str::split_once] on a character: the text before and after the first
    [c]. *)
Fixpoint split_at_char (c : N) (s : list N) : option (list N * list N) :=
  match s with
  | [] => None
  | x :: r =>
      if (x =? c)%N then Some ([], r)
      else option_map (fun ab => (x :: fst ab, snd ab)) (split_at_char c r)
  end.

(** [str::splitn(n, c)]: at most [n] pieces, the last one holding the rest
    of the text. *)
Fixpoint str_splitn (n : nat) (c : N) (s : list N) : list (list N) :=
  match n with
  | O => []
  | S O => [s]
  | S n' =>
      match split_at_char c s with
      | None => [s]
      | Some (before, after) => before :: str_splitn n' c after
      end
  end.

(** [Iterator::next] on the pieces. *)
Definition iter_next {A} (l : list A) : option A := hd_error l.

(** [Option::unwrap] at a call that does not panic: the caller supplies the
    evidence that the option is [Some]. *)
Definition unwrap {A} (o : option A) : o <> None -> A :=
  match o as o' return o' <> None -> A with
  | Some a => fun _ => a
  | None => fun H => False_rect A (H eq_refl)
  end.

(** [splitn(n, c).next()] is never [None] when [n >= 1]: [splitn] yields at
    least one piece, the whole text when [c] does not occur. *)
Definition str_splitn_next (n : nat) (c : N) (s : list N)
    : iter_next (str_splitn (S n) c s) <> None.
Proof.
  destruct n as [|n]; simpl; [discriminate|].
  destruct (split_at_char c s) as [[before after]|]; discriminate.
Defined.

(** [Request::normalize_path_string] (request.rs, lines 154-170). *)
Definition normalize_path_string (raw : list N) : option path :=
  let query_stripped :=
    unwrap (iter_next (str_splitn 2 63 raw)) (str_splitn_next 1 63 raw) in
  let fragment_stripped :=
    unwrap (iter_next (str_splitn 2 35 query_stripped))
           (str_splitn_next 1 35 query_stripped) in
  let normalized_path_string :=
    fold_left (fun acc element =>
                 if is_empty element then acc else pathbuf_push acc element)
              (split_on is_slash fragment_stripped) [] in
  let normalized_path_string := pathbuf_push normalized_path_string (s2l "index") in
  Some (set_extension normalized_path_string (s2l "html")).

(** [Path::starts_with]: a component-wise prefix. *)
Fixpoint starts_with (p base : path) {struct base} : bool :=
  match base, p with
  | [], _ => true
  | b :: base', c :: p' => str_eqb b c && starts_with p' base'
  | _ :: _, [] => false
  end.

(** [Path::is_file]: follows symbolic links. *)
Definition is_file (e : env) (p : path) : bool :=
  match canonicalize e (true, p) with
  | Ok q =>
      match lookup_node (env_fs e) q with
      | Some (File _) => true
      | _ => false
      end
  | Err _ => false
  end.

(* ------------------------------------------------------------------ *)
(** ** [Request::path_exists] (request.rs, lines 113-149) *)

(** [BASE_DIR] (helpers.rs). *)
Definition BASE_DIR : list N := s2l "pages".

(** A line printed by the server: [println!] or [eprintln!]. *)
Inductive log_line : Type :=
| Stdout (text : list N)
| Stderr (text : list N).

(** [impl Display for Request]. *)
Definition display_request (r : Request) : list N :=
  method r ++ [32%N] ++ url r ++ [32%N] ++ version r.

(** The [Display] text of the [io::Error]s. *)
Definition io_error_msg (e : io_error) : list N :=
  s2l (match e with
       | NotFound => "No such file or directory (os error 2)"
       | NotADirectory => "Not a directory (os error 20)"
       | FilesystemLoop => "Too many levels of symbolic links (os error 40)"
       | InvalidData => "stream did not contain valid UTF-8"
       | IsADirectory => "Is a directory (os error 21)"
       | ConnectionReset => "Connection reset by peer (os error 104)"
       end).

Definition base_dir_relative : pathbuf :=
  if is_empty BASE_DIR then path_of_str (s2l ".") else path_of_str BASE_DIR.

Definition path_exists (e : env) (self : Request) : option path * list log_line :=
  let out := [Stdout (s2l "The request is: " ++ display_request self)] in
  match canonicalize e base_dir_relative with
  | Err error =>
      (None, out ++ [Stderr (s2l "BASE_DIR cannot be canonicalized: "
                             ++ io_error_msg error)])
  | Ok base_dir_canonical =>
      match normalize_path_string (url self) with
      | None => (None, out)
      | Some normalized_relative =>
          match canonicalize e (true, base_dir_canonical ++ normalized_relative) with
          | Err _ => (None, out)
          | Ok path_canonical =>
              if negb (starts_with path_canonical base_dir_canonical)
              then (None, out)
              else if is_file e path_canonical
                   then (Some path_canonical, out)
                   else (None, out)
          end
      end
  end.

(* ------------------------------------------------------------------ *)
(** ** [handle_connection] (helpers.rs, lines 25-56) *)

(** An open [File]: a regular file's bytes, or a directory (opening one
    succeeds on Linux, reading it fails with [EISDIR]). *)
Inductive file_handle : Type :=
| FileH (contents : list N)
| DirH.

(** [File::open]: follows symbolic links. *)
Definition file_open (e : env) (p : pathbuf) : result file_handle io_error :=
  match canonicalize e p with
  | Err err => Err err
  | Ok q =>
      match lookup_node (env_fs e) q with
      | Some (File c) => Ok (FileH c)
      | Some Dir => Ok DirH
      | _ => Err NotFound
      end
  end.

(** [metadata().len()] of a directory on ext4. *)
Definition DIR_METADATA_LEN : N := 4096.

Definition file_len (f : file_handle) : N :=
  match f with
  | FileH c => N.of_nat (length c)
  | DirH => DIR_METADATA_LEN
  end.

(** Decimal rendering of a [u64] by [write!]. *)
Fixpoint digits_aux (fuel : nat) (n : N) (acc : list N) : list N :=
  match fuel with
  | O => acc
  | S fuel' =>
      let acc' := (48 + n mod 10)%N :: acc in
      if (n <? 10)%N then acc' else digits_aux fuel' (n / 10)%N acc'
  end.

Definition decimal (n : N) : list N := digits_aux (S (N.size_nat n)) n [].

Definition CRLF : list N := [13%N; 10%N].

(** The four header writes of helpers.rs, lines 51-54. *)
Definition response_head (status : list N) (len : N) : list N :=
  (status ++ CRLF)
  ++ (s2l "Content-Length: " ++ decimal len ++ CRLF)
  ++ (s2l "Content-Type: text/html; charset=utf-8" ++ CRLF)
  ++ CRLF.

(** The writes through the [BufWriter] (lines 49-57): the header lines,
    then [io::copy] of the file. On an error the writer is dropped, which
    flushes what was written to it. *)
Definition send_file (status : list N) (file : file_handle)
    : result unit RequestError * list N :=
  let head := response_head status (file_len file) in
  match file with
  | FileH c => (Ok tt, head ++ c)
  | DirH => (Err (Io IsADirectory), head)
  end.

(** [{BASE_DIR}/error404.html] as built on lines 39-45. *)
Definition error404_path : pathbuf :=
  let u := s2l "error404" in
  let full_url :=
    if is_empty BASE_DIR then (false, [u])
    else (fst (path_of_str BASE_DIR), snd (path_of_str BASE_DIR) ++ [u]) in
  (fst full_url, set_extension (snd full_url) (s2l "html")).

(** What one call does: its result, the bytes that reach the client, and
    the lines printed for the operator. *)
Record outcome : Type := {
  res : result unit RequestError;
  written : list N;
  logs : list log_line
}.

Definition handle_connection (e : env) (tcp_stream : tcp) : outcome :=
  match fst (request_new tcp_stream) with
  | Err err => {| res := Err err; written := []; logs := [] |}
  | Ok request =>
      let (found, out) := path_exists e request in
      let opened :=
        match found with
        | Some u => (file_open e (true, u), s2l "200 Ok")
        | None => (file_open e error404_path, s2l "404 NOT FOUND")
        end in
      match fst opened with
      | Err err => {| res := Err (Io err); written := []; logs := out |}
      | Ok file =>
          let (r, w) := send_file (s2l "HTTP/1.1 " ++ snd opened) file in
          {| res := r; written := w; logs := out |}
      end
  end.

(* ------------------------------------------------------------------ *)
(** ** A concrete server tree *)

(** [/srv/pages] served from [/srv]; [/etc/passwd/index.html] lies outside
    it, and [pages/escape] is a symbolic link to [/etc]. *)
Definition demo_fs : list (path * node) :=
  [ ([s2l "srv"], Dir);
    ([s2l "srv"; s2l "pages"], Dir);
    ([s2l "srv"; s2l "pages"; s2l "index.html"], File (s2l "<h1>Hi!</h1>"));
    ([s2l "srv"; s2l "pages"; s2l "error404.html"], File (s2l "<h1>404</h1>"));
    ([s2l "srv"; s2l "pages"; s2l "docs"], Dir);
    ([s2l "srv"; s2l "pages"; s2l "docs"; s2l "index.html"], File (s2l "<p>docs</p>"));
    ([s2l "srv"; s2l "pages"; s2l "escape"], Symlink true [s2l "etc"]);
    ([s2l "etc"], Dir);
    ([s2l "etc"; s2l "passwd"], Dir);
    ([s2l "etc"; s2l "passwd"; s2l "index.html"], File (s2l "root:x:0:0")) ].

Definition demo_env : env := {| env_fs := demo_fs; env_cwd := [s2l "srv"] |}.

(** A connection that sends [line] followed by CRLF and a header. *)
Definition demo_stream (line : String.string) : tcp :=
  [Data (s2l line ++ CRLF ++ s2l "Host: x" ++ CRLF ++ CRLF)].

Definition get (u : String.string) : Request :=
  {| url := s2l u; method := s2l "GET"; version := s2l "HTTP/1.1" |}.

(** The routing key of a request path: its non-empty ['/']-separated
    segments before the first ['?'] or ['#']. *)
Definition routing_key (raw : list N) : list name :=
  filter (fun w => negb (is_empty w))
         (split_on is_slash (before_char 35 (before_char 63 raw))).

Definition demo_index : path := [s2l "srv"; s2l "pages"; s2l "index.html"].

(** Request lines with a vertical tab (U+000B: Unicode whitespace, but not
    ASCII whitespace for [split_ascii_whitespace]) at a token's edge. *)
Definition vt_path_line : list N := s2l "GET " ++ [11%N] ++ s2l "/docs HTTP/1.1".
Definition vt_method_line : list N := 11%N :: s2l "GET / HTTP/1.1".

(** The bytes [handle_connection] sends on the 404 branch: they depend on
    the fallback file only. *)
Definition not_found_response (e : env) : list N :=
  match file_open e error404_path with
  | Err _ => []
  | Ok f => snd (send_file (s2l "HTTP/1.1 404 NOT FOUND") f)
  end.

(** The same tree served from [/etc], where [pages] does not exist. *)
Definition bare_env : env := {| env_fs := demo_fs; env_cwd := [s2l "etc"] |}.

(* ------------------------------------------------------------------ *)
(** ** [get_request] and [send_response_header] (lib.rs) *)

(** [lines().map(|l| l.unwrap()).take_while(|l| !l.is_empty()).collect()]:
    the lines before the first empty one; [None] is the panic of [unwrap]
    on a failing line. [fuel] bounds the lines read (see [get_request]). *)
Fixpoint collect_lines (fuel : nat) (r : bufreader) : option (list (list N)) :=
  match fuel with
  | O => Some []
  | S fuel' =>
      match lines_next r with
      | (None, _) => Some []
      | (Some (Err _), _) => None
      | (Some (Ok line), r') =>
          if is_empty line then Some []
          else option_map (cons line) (collect_lines fuel' r')
      end
  end.

(** [get_request] (lib.rs, lines 33-42). Every line read consumes at least
    one byte, so [S (tcp_measure s)] lines always suffice. *)
Definition get_request (stream : tcp) : option (list (list N)) :=
  collect_lines (S (tcp_measure stream)) (bufreader_new stream).



(* ------------------------------------------------------------------ *)
(** ** The server loop of main.rs *)

(** [write_connection_response] (main.rs, lines 75-78). *)
Definition write_connection_response : list N :=
  s2l "HTTP/1.1 200 OK" ++ CRLF ++ CRLF.

(** [Write::write_all] on a connection that takes [room] more bytes before
    the peer resets it ([None]: no limit). On failure the bytes sent are
    those that fit. *)
Definition write_all (room : option nat) (bs : list N) : result unit io_error * list N :=
  match room with
  | None => (Ok tt, bs)
  | Some k =>
      if Nat.leb (length bs) k then (Ok tt, bs)
      else (Err ConnectionReset, firstn k bs)
  end.

(** An item of [listener.incoming()]: an accepted connection (what it
    delivers, and how much it takes before being reset) or a failed
    accept. *)
Inductive connection_attempt : Type :=
| Accepted (stream : tcp) (room : option nat)
| AcceptFailed.

(** The [for] loop of [main] (main.rs, lines 15-20) over a finite prefix of
    [incoming()]: the bytes written to each connection served, and whether
    the loop ended in a panic. main.rs's [handle_connection] runs the same
    reading pipeline as [get_request] (its [unwrap] panics the same way);
    the [unwrap] of [write_connection_response]'s [write_all] panics when
    the write fails. *)
Fixpoint serve (incoming : list connection_attempt) : list (list N) * bool :=
  match incoming with
  | [] => ([], false)
  | AcceptFailed :: rest => serve rest
  | Accepted stream room :: rest =>
      match get_request stream with
      | None => ([], true)
      | Some _ =>
          match write_all room write_connection_response with
          | (Err _, sent) => ([sent], true)
          | (Ok _, sent) =>
              let (ws, panicked) := serve rest in
              (sent :: ws, panicked)
          end
      end
  end.

(** Header lines as a client sends them: each followed by CRLF, then the
    blank line, then anything (a body). *)
Definition header_bytes (ls : list (list N)) (rest : list N) : list N :=
  concat (map (fun l => l ++ CRLF) ls) ++ CRLF ++ rest.

(** A header line of the form [header_bytes] expects: non-empty ASCII
    without a line feed. *)
Definition line_ok (l : list N) : Prop :=
  l <> [] /\ (forall x, In x l -> (x < 128)%N /\ x <> 10%N).

(** A decidable form of [line_ok]. *)
Definition line_okb (l : list N) : bool :=
  negb (is_empty l) && forallb (fun x => (x <? 128)%N && negb (x =? 10)%N) l.



(* ------------------------------------------------------------------ *)
(** ** Canonical paths *)

(** A component that [realpath] looks up (not [""], ["."] or [".."]). *)
Definition plain (c : name) : Prop :=
  is_cur_dir c = false /\ is_parent_dir c = false.

(** A path whose every non-empty prefix is a directory reached through
    plain components: what [realpath] leaves in its current directory. *)
Definition canon_dir (fs : list (path * node)) (p : path) : Prop :=
  Forall plain p /\
  (forall k, 0 < k <= length p -> lookup_node fs (firstn k p) = Some Dir).

(** What [realpath] returns: a canonical directory, or a regular file in
    one. *)
Definition canon_result (fs : list (path * node)) (r : path) : Prop :=
  canon_dir fs r \/
  exists d c content, r = d ++ [c] /\ canon_dir fs d /\ plain c /\
                      lookup_node fs r = Some (File content).

Example ex1 : fst (request_new (demo_stream "GET / HTTP/1.1")) = Ok (get "/").
Proof. vm_compute. reflexivity. Qed.
Example ex2 : fst (path_exists demo_env (get "/")) = Some [s2l "srv"; s2l "pages"; s2l "index.html"].
Proof. vm_compute. reflexivity. Qed.
Example ex3 : fst (path_exists demo_env (get "/../../etc/passwd")) = None.
Proof. vm_compute. reflexivity. Qed.
Example ex3b : canonicalize demo_env (true, [s2l "srv"; s2l "pages"; s2l ".."; s2l ".."; s2l "etc"; s2l "passwd"; s2l "index.html"]) = Ok [s2l "etc"; s2l "passwd"; s2l "index.html"].
Proof. vm_compute. reflexivity. Qed.
Example ex4 : fst (path_exists demo_env (get "/escape/passwd")) = None.
Proof. vm_compute. reflexivity. Qed.
Example ex5 : fst (path_exists demo_env (get "/docs?x=1#top")) = Some [s2l "srv"; s2l "pages"; s2l "docs"; s2l "index.html"].
Proof. vm_compute. reflexivity. Qed.
Example ex6 : written (handle_connection demo_env (demo_stream "GET / HTTP/1.1")) = s2l "HTTP/1.1 200 Ok" ++ CRLF ++ s2l "Content-Length: 12" ++ CRLF ++ s2l "Content-Type: text/html; charset=utf-8" ++ CRLF ++ CRLF ++ s2l "<h1>Hi!</h1>".
Proof. vm_compute. reflexivity. Qed.
Example ex7 : written (handle_connection demo_env (demo_stream "GET /../../etc/passwd HTTP/1.1")) = s2l "HTTP/1.1 404 NOT FOUND" ++ CRLF ++ s2l "Content-Length: 12" ++ CRLF ++ s2l "Content-Type: text/html; charset=utf-8" ++ CRLF ++ CRLF ++ s2l "<h1>404</h1>".
Proof. vm_compute. reflexivity. Qed.
Example ex8 : snd (request_new (demo_stream "GET / HTTP/1.1")) = [].
Proof. vm_compute. reflexivity. Qed.
Example ex9 : decimal 0 = s2l "0" /\ decimal 1234 = s2l "1234".
Proof. vm_compute. split; reflexivity. Qed.

(* ------------------------------------------------------------------ *)
(** ** Lemmas on [realpath] *)

Section Realpath.
Variable fs : list (path * node).

Lemma canon_dir_nil : canon_dir fs [].
Proof. split; [constructor | simpl; intros; lia]. Qed.

Lemma firstn_app_le {A} (l m : list A) k :
  k <= length l -> firstn k (l ++ m) = firstn k l.
Proof.
  intros Hk. rewrite firstn_app.
  replace (k - length l) with 0 by lia. simpl. apply app_nil_r.
Qed.

Lemma canon_dir_snoc cur c :
  canon_dir fs cur -> plain c -> lookup_node fs (cur ++ [c]) = Some Dir ->
  canon_dir fs (cur ++ [c]).
Proof.
  intros [Hpl Hd] Hc Hl. split.
  - apply Forall_app; split; auto.
  - intros k Hk. rewrite length_app in Hk; simpl in Hk.
    destruct (Nat.eq_dec k (S (length cur))) as [->|Hne].
    + rewrite firstn_all2 by (rewrite length_app; simpl; lia). exact Hl.
    + rewrite firstn_app_le by lia. apply Hd. lia.
Qed.

Lemma canon_dir_app_inv l m : canon_dir fs (l ++ m) -> canon_dir fs l.
Proof.
  intros [Hpl Hd]. split.
  - apply Forall_app in Hpl. tauto.
  - intros k Hk. rewrite <- (firstn_app_le l m) by lia.
    apply Hd. rewrite length_app. lia.
Qed.

Lemma canon_dir_removelast cur : canon_dir fs cur -> canon_dir fs (removelast cur).
Proof.
  induction cur as [|x l _] using rev_ind; intros H.
  - exact H.
  - rewrite removelast_last. eapply canon_dir_app_inv. exact H.
Qed.

Lemma plain_of_flags c :
  is_cur_dir c = false -> is_parent_dir c = false -> plain c.
Proof. intros; split; assumption. Qed.

Lemma walk_canon (k : path -> path -> result path io_error) :
  (forall cur comps r, canon_dir fs cur -> k cur comps = Ok r -> canon_result fs r) ->
  forall comps cur r, canon_dir fs cur -> walk k fs cur comps = Ok r ->
  canon_result fs r.
Proof.
  intros Hk comps. induction comps as [|c rest IH]; intros cur r Hcur Hw; simpl in Hw.
  - injection Hw as <-. left; exact Hcur.
  - destruct (is_cur_dir c) eqn:Hcd; [eauto|].
    destruct (is_parent_dir c) eqn:Hpd.
    { eapply IH; [apply canon_dir_removelast; exact Hcur | exact Hw]. }
    destruct (lookup_node fs (cur ++ [c])) as [[content| |abs target]|] eqn:Hl.
    + destruct rest; [|discriminate]. injection Hw as <-.
      right. exists cur, c, content.
      split; [reflexivity|]. split; [exact Hcur|].
      split; [apply plain_of_flags; assumption | exact Hl].
    + eapply IH; [|exact Hw].
      apply canon_dir_snoc; [exact Hcur | apply plain_of_flags; assumption | exact Hl].
    + eapply Hk; [|exact Hw]. destruct abs; [apply canon_dir_nil | exact Hcur].
    + discriminate.
Qed.

Lemma resolve_canon fuel :
  forall cur comps r, canon_dir fs cur -> resolve fuel fs cur comps = Ok r ->
  canon_result fs r.
Proof.
  induction fuel as [|fuel IH]; intros cur comps r Hcur Hr; simpl in Hr.
  - discriminate.
  - eapply walk_canon; eauto.
Qed.

Lemma canon_dir_plain_at cur c rest :
  canon_dir fs (cur ++ c :: rest) ->
  plain c /\ lookup_node fs (cur ++ [c]) = Some Dir.
Proof.
  intros [Hpl Hd]. split.
  - apply Forall_app in Hpl. destruct Hpl as [_ Hpl]. inversion Hpl; assumption.
  - replace (cur ++ [c]) with (firstn (S (length cur)) (cur ++ c :: rest)).
    + apply Hd. rewrite length_app. simpl. lia.
    + replace (cur ++ c :: rest) with ((cur ++ [c]) ++ rest)
        by (rewrite <- app_assoc; reflexivity).
      rewrite firstn_app_le by (rewrite length_app; simpl; lia).
      apply firstn_all2. rewrite length_app. simpl. lia.
Qed.

Lemma walk_canon_dir_id k rest :
  forall cur, canon_dir fs (cur ++ rest) -> walk k fs cur rest = Ok (cur ++ rest).
Proof.
  induction rest as [|c rest IH]; intros cur H; simpl.
  - rewrite app_nil_r. reflexivity.
  - destruct (canon_dir_plain_at cur c rest H) as [[Hc Hp] Hl].
    rewrite Hc, Hp, Hl.
    replace (cur ++ c :: rest) with ((cur ++ [c]) ++ rest)
      by (rewrite <- app_assoc; reflexivity).
    apply IH. rewrite <- app_assoc. exact H.
Qed.

Lemma walk_canon_file_id k d c content :
  forall cur, canon_dir fs (cur ++ d) -> plain c ->
  lookup_node fs (cur ++ d ++ [c]) = Some (File content) ->
  walk k fs cur (d ++ [c]) = Ok (cur ++ d ++ [c]).
Proof.
  induction d as [|x d IH]; intros cur Hd [Hc Hp] Hl; simpl in *.
  - rewrite Hc, Hp, Hl. reflexivity.
  - destruct (canon_dir_plain_at cur x d Hd) as [[Hxc Hxp] Hxl].
    rewrite Hxc, Hxp, Hxl.
    replace (cur ++ x :: d ++ [c]) with ((cur ++ [x]) ++ d ++ [c])
      by (rewrite <- app_assoc; reflexivity).
    apply IH.
    + rewrite <- app_assoc. exact Hd.
    + split; assumption.
    + rewrite <- app_assoc. exact Hl.
Qed.

(** [realpath] is idempotent: its results are fixed points. *)
Lemma resolve_canon_id r fuel :
  canon_result fs r -> resolve (S fuel) fs [] r = Ok r.
Proof.
  intros [Hr | (d & c & content & -> & Hd & Hc & Hl)]; simpl.
  - apply (walk_canon_dir_id _ r []). exact Hr.
  - apply (walk_canon_file_id _ d c content []); assumption.
Qed.

End Realpath.

Lemma str_eqb_refl a : str_eqb a a = true.
Proof. induction a as [|x a IH]; simpl; [reflexivity|]. rewrite N.eqb_refl, IH. reflexivity. Qed.

Lemma starts_with_app b x : starts_with (b ++ x) b = true.
Proof. induction b as [|y b IH]; simpl; [reflexivity|]. rewrite str_eqb_refl, IH. reflexivity. Qed.

Lemma fold_left_push l acc :
  fold_left (fun acc element =>
               if is_empty element then acc else pathbuf_push acc element) l acc
  = acc ++ filter (fun w => negb (is_empty w)) l.
Proof.
  revert acc. induction l as [|w l IH]; intros acc; simpl.
  - rewrite app_nil_r. reflexivity.
  - rewrite IH. destruct (is_empty w); simpl; [reflexivity|].
    unfold pathbuf_push. rewrite <- app_assoc. reflexivity.
Qed.

Lemma split_at_char_before c s :
  match split_at_char c s with
  | None => before_char c s = s
  | Some (before, _) => before_char c s = before
  end.
Proof.
  induction s as [|x r IH]; simpl; [reflexivity|].
  destruct (x =? c)%N; [reflexivity|].
  destruct (split_at_char c r) as [[b a]|]; simpl; rewrite IH; reflexivity.
Qed.

Lemma iter_next_splitn2 c s : iter_next (str_splitn 2 c s) = Some (before_char c s).
Proof.
  pose proof (split_at_char_before c s) as H. simpl.
  destruct (split_at_char c s) as [[b a]|]; simpl; rewrite H; reflexivity.
Qed.

Lemma unwrap_some {A} (o : option A) (H : o <> None) x : o = Some x -> unwrap o H = x.
Proof.
  revert H. destruct o as [a|]; intros H E; [injection E as ->; reflexivity | discriminate].
Qed.

Lemma unwrap_splitn2 c s H : unwrap (iter_next (str_splitn 2 c s)) H = before_char c s.
Proof. apply unwrap_some. apply iter_next_splitn2. Qed.

Lemma normalize_path_string_key raw :
  normalize_path_string raw = Some (routing_key raw ++ [s2l "index.html"]).
Proof.
  unfold normalize_path_string, routing_key. cbv zeta. rewrite !unwrap_splitn2.
  rewrite fold_left_push. simpl.
  unfold pathbuf_push, set_extension. rewrite rev_app_distr. simpl.
  rewrite rev_involutive. reflexivity.
Qed.

(** [path_exists] reads the request only through its normalized path. *)
Lemma path_exists_normalized e r1 r2 :
  normalize_path_string (url r1) = normalize_path_string (url r2) ->
  fst (path_exists e r1) = fst (path_exists e r2).
Proof.
  intros Hn. unfold path_exists. rewrite Hn.
  destruct (canonicalize e base_dir_relative); [|reflexivity].
  destruct (normalize_path_string (url r2)); [|reflexivity].
  repeat match goal with
         | |- context [match ?x with _ => _ end] => destruct x
         end; reflexivity.
Qed.

Lemma canonicalize_abs_canon e p q :
  canonicalize e (true, p) = Ok q -> canon_result (env_fs e) q.
Proof. intros H. eapply resolve_canon; [apply canon_dir_nil | exact H]. Qed.

Lemma canonicalize_canon_id e q :
  canon_result (env_fs e) q -> canonicalize e (true, q) = Ok q.
Proof. intros H. apply resolve_canon_id. exact H. Qed.

Lemma path_exists_some e req p :
  fst (path_exists e req) = Some p ->
  exists base, canonicalize e base_dir_relative = Ok base /\
    canon_result (env_fs e) p /\ is_file e p = true /\
    starts_with p base = true.
Proof.
  intros H. unfold path_exists in H.
  destruct (canonicalize e base_dir_relative) as [base|err] eqn:Hb;
    [|discriminate].
  destruct (normalize_path_string (url req)) as [rel|]; [|discriminate].
  destruct (canonicalize e (true, base ++ rel)) as [q|err] eqn:Hq;
    [|discriminate].
  destruct (starts_with q base) eqn:Hs; simpl in H; [|discriminate].
  destruct (is_file e q) eqn:Hf; [|discriminate].
  injection H as <-. exists base.
  split; [reflexivity|]. split; [|split; assumption].
  eapply canonicalize_abs_canon. exact Hq.
Qed.

Lemma path_exists_some_file e req p :
  fst (path_exists e req) = Some p ->
  exists c, lookup_node (env_fs e) p = Some (File c) /\
            file_open e (true, p) = Ok (FileH c).
Proof.
  intros H. destruct (path_exists_some e req p H) as (base & _ & Hc & Hf & _).
  apply canonicalize_canon_id in Hc.
  unfold is_file in Hf. rewrite Hc in Hf.
  destruct (lookup_node (env_fs e) p) as [[c| |]|] eqn:Hl; try discriminate.
  exists c. split; [reflexivity|]. unfold file_open. rewrite Hc, Hl. reflexivity.
Qed.

(** C1: whatever [path_exists] returns is canonical, a regular file, and has
    the canonical base directory as a component-wise prefix; a request whose
    candidate canonicalizes outside the base directory (through [".."]
    segments or symbolic links) gets [None]. *)
Theorem path_exists_confined (e : env) (req : Request) :
  (forall p, fst (path_exists e req) = Some p ->
     exists base, canonicalize e base_dir_relative = Ok base /\
       canonicalize e (true, p) = Ok p /\ is_file e p = true /\
       starts_with p base = true) /\
  (forall base rel q,
     canonicalize e base_dir_relative = Ok base ->
     normalize_path_string (url req) = Some rel ->
     canonicalize e (true, base ++ rel) = Ok q ->
     starts_with q base = false ->
     fst (path_exists e req) = None).
Proof.
  split.
  - intros p H. destruct (path_exists_some e req p H) as (base & Hb & Hc & Hf & Hs).
    exists base. split; [exact Hb|]. split; [|split; assumption].
    apply canonicalize_canon_id. exact Hc.
  - intros base rel q Hb Hn Hq Hs. unfold path_exists.
    rewrite Hb, Hn, Hq, Hs. reflexivity.
Qed.

Lemma path_exists_confined_witness :
  (exists base, canonicalize demo_env base_dir_relative = Ok base /\
     canonicalize demo_env (true, demo_index) = Ok demo_index /\
     is_file demo_env demo_index = true /\
     starts_with demo_index base = true) /\
  fst (path_exists demo_env (get "/../../etc/passwd")) = None.
Proof.
  split.
  - apply (proj1 (path_exists_confined demo_env (get "/"))).
    vm_compute. reflexivity.
  - apply (proj2 (path_exists_confined demo_env (get "/../../etc/passwd")))
      with (base := [s2l "srv"; s2l "pages"])
           (rel := [s2l ".."; s2l ".."; s2l "etc"; s2l "passwd"; s2l "index.html"])
           (q := [s2l "etc"; s2l "passwd"; s2l "index.html"]);
      vm_compute; reflexivity.
Defined.

(** C4: resolution depends only on the non-empty segments before the first
    ['?'] or ['#']; [/docs] and [/docs/] resolve alike, [/docs?x=1#top]
    like [/docs], [/] like the empty path, and [/] resolves to
    [index.html] in the canonical base directory when that is a regular
    file there. *)
Theorem path_resolution_routing_key (e : env) :
  (forall raw, normalize_path_string raw = Some (routing_key raw ++ [s2l "index.html"])) /\
  (forall r1 r2, routing_key (url r1) = routing_key (url r2) ->
     fst (path_exists e r1) = fst (path_exists e r2)) /\
  fst (path_exists e (get "/docs")) = fst (path_exists e (get "/docs/")) /\
  fst (path_exists e (get "/docs?x=1#top")) = fst (path_exists e (get "/docs")) /\
  fst (path_exists e (get "/")) = fst (path_exists e (get "")) /\
  (forall base content,
     canon_dir (env_fs e) (env_cwd e) ->
     canonicalize e base_dir_relative = Ok base ->
     lookup_node (env_fs e) base = Some Dir ->
     lookup_node (env_fs e) (base ++ [s2l "index.html"]) = Some (File content) ->
     fst (path_exists e (get "/")) = Some (base ++ [s2l "index.html"])).
Proof.
  assert (Hkey : forall r1 r2, routing_key (url r1) = routing_key (url r2) ->
            fst (path_exists e r1) = fst (path_exists e r2)).
  { intros r1 r2 H. apply path_exists_normalized.
    rewrite !normalize_path_string_key, H. reflexivity. }
  split; [exact normalize_path_string_key|].
  split; [exact Hkey|].
  split; [apply Hkey; reflexivity|].
  split; [apply Hkey; reflexivity|].
  split; [apply Hkey; reflexivity|].
  intros base content Hcwd Hb Hdir Hidx.
  assert (Hbase : canon_dir (env_fs e) base).
  { destruct (resolve_canon (env_fs e) _ _ _ _ Hcwd Hb)
      as [H | (d & c & ct & -> & _ & _ & Hf)]; [exact H|].
    rewrite Hf in Hdir. discriminate. }
  assert (Hcand : canonicalize e (true, base ++ [s2l "index.html"])
                  = Ok (base ++ [s2l "index.html"])).
  { apply canonicalize_canon_id. right.
    exists base, (s2l "index.html"), content.
    split; [reflexivity|]. split; [exact Hbase|].
    split; [split; reflexivity | exact Hidx]. }
  unfold path_exists. rewrite Hb, normalize_path_string_key.
  replace (routing_key (url (get "/")) ++ [s2l "index.html"])
    with [s2l "index.html"] by reflexivity.
  match goal with
  | |- context [canonicalize e ?x] =>
      replace (canonicalize e x) with
        (Ok (base ++ [s2l "index.html"]) : result path io_error)
        by (symmetry; exact Hcand)
  end.
  rewrite starts_with_app. simpl. unfold is_file.
  match goal with
  | |- context [canonicalize e ?x] =>
      replace (canonicalize e x) with
        (Ok (base ++ [s2l "index.html"]) : result path io_error)
        by (symmetry; exact Hcand)
  end.
  match goal with
  | |- context [lookup_node (env_fs e) ?x] =>
      replace (lookup_node (env_fs e) x) with (Some (File content))
        by (symmetry; exact Hidx)
  end.
  reflexivity.
Qed.

Lemma path_resolution_routing_key_witness :
  fst (path_exists demo_env (get "/"))
  = Some ([s2l "srv"; s2l "pages"] ++ [s2l "index.html"]).
Proof.
  apply (proj2 (proj2 (proj2 (proj2 (proj2 (path_resolution_routing_key demo_env))))))
    with (content := s2l "<h1>Hi!</h1>"); vm_compute.
  - split.
    + repeat constructor.
    + intros k Hk. destruct k as [|[|]]; [lia | reflexivity | lia].
  - reflexivity.
  - reflexivity.
  - reflexivity.
Defined.

(* ------------------------------------------------------------------ *)
(** ** Parsing the request line *)

Lemma str_eqb_eq a b : str_eqb a b = true <-> a = b.
Proof.
  split.
  - revert b. induction a as [|x a IH]; intros [|y b]; simpl; try discriminate.
    + reflexivity.
    + intros H. apply andb_prop in H. destruct H as [Hx Hab].
      apply N.eqb_eq in Hx. subst. f_equal. apply IH. exact Hab.
  - intros <-. apply str_eqb_refl.
Qed.

Lemma request_new_parse s line :
  fst (first_line s) = Some (Ok line) ->
  fst (request_new s) = parse_request_line line.
Proof.
  unfold request_new. destruct (first_line s) as [next r]. simpl.
  intros ->. reflexivity.
Qed.

Lemma trim_id u :
  (forall c, hd_error u = Some c -> is_whitespace c = false) ->
  (forall c, hd_error (rev u) = Some c -> is_whitespace c = false) ->
  trim u = u.
Proof.
  intros Hh Hl. unfold trim, trim_end.
  assert (Hs : trim_start u = u).
  { destruct u as [|c u']; [reflexivity|]. simpl. rewrite (Hh c eq_refl). reflexivity. }
  rewrite Hs.
  assert (Hr : trim_start (rev u) = rev u).
  { destruct (rev u) as [|c u']; [reflexivity|]. simpl. rewrite (Hl c eq_refl). reflexivity. }
  rewrite Hr. apply rev_involutive.
Qed.

Lemma request_new_keeps_path_token_counterexample :
  ~ (forall s line u,
       fst (first_line s) = Some (Ok line) ->
       split_ascii_whitespace line = [s2l "GET"; u; s2l "HTTP/1.1"] ->
       fst (request_new s)
       = Ok {| url := u; method := s2l "GET"; version := s2l "HTTP/1.1" |}).
Proof.
  intros H.
  assert (A : fst (first_line [Data (vt_path_line ++ CRLF)]) = Some (Ok vt_path_line))
    by (vm_compute; reflexivity).
  assert (B : split_ascii_whitespace vt_path_line
              = [s2l "GET"; 11%N :: s2l "/docs"; s2l "HTTP/1.1"])
    by (vm_compute; reflexivity).
  pose proof (H _ _ _ A B) as C. vm_compute in C. congruence.
Qed.

(** C2 (corrected): for a request line that [split_ascii_whitespace]
    splits into three tokens which, trimmed of surrounding whitespace, are
    [GET] and [HTTP/1.1] around a middle token [u], [Request::new] succeeds
    and stores [u] trimmed of its surrounding (Unicode) whitespace; [u] is
    stored unmodified when it neither starts nor ends with whitespace. *)
Theorem request_new_trimmed_path (s : tcp) (line m u v : list N) :
  fst (first_line s) = Some (Ok line) ->
  split_ascii_whitespace line = [m; u; v] ->
  trim m = s2l "GET" -> trim v = s2l "HTTP/1.1" ->
  fst (request_new s)
  = Ok {| url := trim u; method := s2l "GET"; version := s2l "HTTP/1.1" |} /\
  ((forall c, hd_error u = Some c -> is_whitespace c = false) ->
   (forall c, hd_error (rev u) = Some c -> is_whitespace c = false) ->
   trim u = u).
Proof.
  intros Hl Hs Hm Hv. split; [|apply trim_id].
  rewrite (request_new_parse s line Hl). unfold parse_request_line.
  rewrite Hs. simpl map. rewrite Hm, Hv. reflexivity.
Qed.

Lemma request_new_trimmed_path_witness :
  fst (request_new (demo_stream "GET /docs?x=1#top HTTP/1.1"))
  = Ok {| url := trim (s2l "/docs?x=1#top"); method := s2l "GET";
          version := s2l "HTTP/1.1" |} /\
  trim (s2l "/docs?x=1#top") = s2l "/docs?x=1#top".
Proof.
  assert (Hs : forall c, hd_error (s2l "/docs?x=1#top") = Some c -> is_whitespace c = false)
    by (vm_compute; intros c H; injection H as <-; reflexivity).
  assert (He : forall c, hd_error (rev (s2l "/docs?x=1#top")) = Some c -> is_whitespace c = false)
    by (vm_compute; intros c H; injection H as <-; reflexivity).
  destruct (request_new_trimmed_path (demo_stream "GET /docs?x=1#top HTTP/1.1")
              (s2l "GET /docs?x=1#top HTTP/1.1") (s2l "GET") (s2l "/docs?x=1#top")
              (s2l "HTTP/1.1")) as [H1 H2];
    [vm_compute; reflexivity .. |].
  split; [exact H1 | exact (H2 Hs He)].
Defined.

Lemma parse_request_line_not_empty line :
  parse_request_line line <> Err EmptyRequest.
Proof.
  unfold parse_request_line.
  destruct (negb (Nat.eqb _ 3)); [discriminate|].
  destruct (negb (_ && _)); discriminate.
Qed.

Lemma request_new_error_classes_counterexample :
  ~ (forall s line m u v,
       fst (first_line s) = Some (Ok line) ->
       split_ascii_whitespace line = [m; u; v] ->
       m <> s2l "GET" \/ v <> s2l "HTTP/1.1" ->
       fst (request_new s) = Err InvalidHeader).
Proof.
  intros H.
  assert (A : fst (first_line [Data (vt_method_line ++ CRLF)]) = Some (Ok vt_method_line))
    by (vm_compute; reflexivity).
  assert (B : split_ascii_whitespace vt_method_line
              = [11%N :: s2l "GET"; s2l "/"; s2l "HTTP/1.1"])
    by (vm_compute; reflexivity).
  assert (C : 11%N :: s2l "GET" <> s2l "GET" \/ s2l "HTTP/1.1" <> s2l "HTTP/1.1")
    by (left; discriminate).
  pose proof (H _ _ _ _ _ A B C) as D. vm_compute in D. discriminate.
Qed.

(** C3 (corrected): [Request::new] returns [EmptyRequest] exactly when the
    stream yields no line; [Io] when reading the line fails; [InvalidLength]
    when the line does not split into three ASCII-whitespace tokens; and
    [InvalidHeader] when it does but the first token trimmed is not [GET]
    or the third token trimmed is not [HTTP/1.1]. *)
Theorem request_new_error_classes :
  (forall s, fst (request_new s) = Err EmptyRequest <-> fst (first_line s) = None) /\
  (forall s e, fst (first_line s) = Some (Err e) -> fst (request_new s) = Err (Io e)) /\
  (forall s line, fst (first_line s) = Some (Ok line) ->
     length (split_ascii_whitespace line) <> 3 ->
     fst (request_new s) = Err InvalidLength) /\
  (forall s line m u v, fst (first_line s) = Some (Ok line) ->
     split_ascii_whitespace line = [m; u; v] ->
     trim m <> s2l "GET" \/ trim v <> s2l "HTTP/1.1" ->
     fst (request_new s) = Err InvalidHeader).
Proof.
  split; [|split; [|split]].
  - intros s. unfold request_new.
    destruct (first_line s) as [next r]. simpl.
    destruct next as [[line|e]|]; split; intros H; try reflexivity; try discriminate.
    exfalso. exact (parse_request_line_not_empty line H).
  - intros s e H. unfold request_new.
    destruct (first_line s) as [next r]. simpl in *. subst. reflexivity.
  - intros s line Hl Hn. rewrite (request_new_parse s line Hl).
    unfold parse_request_line. rewrite length_map.
    apply Nat.eqb_neq in Hn. rewrite Hn. reflexivity.
  - intros s line m u v Hl Hs Hd. rewrite (request_new_parse s line Hl).
    unfold parse_request_line. rewrite Hs. simpl map. simpl nth.
    destruct (str_eqb (trim m) (s2l "GET")) eqn:E1;
      destruct (str_eqb (trim v) (s2l "HTTP/1.1")) eqn:E2;
      try reflexivity.
    apply str_eqb_eq in E1. apply str_eqb_eq in E2. tauto.
Qed.

Lemma request_new_error_classes_witness :
  fst (request_new []) = Err EmptyRequest /\
  fst (request_new (demo_stream "GET /")) = Err InvalidLength /\
  fst (request_new (demo_stream "POST / HTTP/1.1")) = Err InvalidHeader.
Proof.
  destruct request_new_error_classes as (H1 & _ & H3 & H4).
  split; [|split].
  - apply H1. vm_compute. reflexivity.
  - apply (H3 _ (s2l "GET /")); vm_compute; [reflexivity | discriminate].
  - apply (H4 _ (s2l "POST / HTTP/1.1") (s2l "POST") (s2l "/") (s2l "HTTP/1.1"));
      vm_compute; [reflexivity | reflexivity | left; discriminate].
Defined.

(* ------------------------------------------------------------------ *)
(** ** What reading the request line consumes *)

Lemma tcp_read_bytes cap s d s' :
  tcp_read cap s = (Ok d, s') ->
  stream_bytes s = d ++ stream_bytes s' /\ length d <= cap.
Proof.
  destruct s as [|[d0|e] s0]; simpl; intros H.
  - injection H as <- <-. simpl; split; [reflexivity | lia].
  - destruct (Nat.leb (length d0) cap) eqn:Hc.
    + injection H as <- <-. apply Nat.leb_le in Hc. split; [reflexivity | exact Hc].
    + injection H as <- <-. simpl. split.
      * rewrite app_assoc, firstn_skipn. reflexivity.
      * rewrite length_firstn. lia.
  - discriminate.
Qed.

Lemma fill_buf_bytes r a r' :
  length (br_buf r) <= DEFAULT_BUF_SIZE ->
  fill_buf r = (Ok a, r') ->
  br_buf r' = a /\
  br_buf r ++ stream_bytes (br_inner r) = a ++ stream_bytes (br_inner r') /\
  length a <= DEFAULT_BUF_SIZE.
Proof.
  intros Hlen. unfold fill_buf. destruct (br_buf r) as [|b bs] eqn:Hb.
  - destruct (tcp_read DEFAULT_BUF_SIZE (br_inner r)) as [[d|e] s'] eqn:Hr;
      intros H; [|discriminate].
    injection H as <- <-. apply tcp_read_bytes in Hr. simpl.
    destruct Hr as [Hs Hd]. split; [reflexivity|]. split; [exact Hs | exact Hd].
  - intros H. injection H as <- <-. rewrite Hb. split; [reflexivity|].
    split; [reflexivity | exact Hlen].
Qed.

Lemma memchr_lt d l i : memchr d l = Some i -> i < length l.
Proof.
  revert i. induction l as [|x l IH]; intros i; simpl; [discriminate|].
  destruct (x =? d)%N.
  - intros H. injection H as <-. lia.
  - destruct (memchr d l) as [j|]; simpl; [|discriminate].
    intros H. injection H as <-. specialize (IH j eq_refl). lia.
Qed.

Lemma read_until_loop_bytes fuel delim :
  forall r acc bs r',
  length (br_buf r) < DEFAULT_BUF_SIZE ->
  read_until_loop fuel delim r acc = (Ok bs, r') ->
  acc ++ br_buf r ++ stream_bytes (br_inner r)
  = bs ++ br_buf r' ++ stream_bytes (br_inner r') /\
  length (br_buf r') < DEFAULT_BUF_SIZE.
Proof.
  induction fuel as [|fuel IH]; intros r acc bs r' Hlen H; simpl in H.
  - injection H as <- <-. split; [reflexivity | exact Hlen].
  - destruct (fill_buf r) as [[a|e] r1] eqn:Hf; [|discriminate].
    destruct (fill_buf_bytes r a r1 ltac:(lia) Hf) as (Hb1 & Hs1 & Ha).
    destruct (memchr delim a) as [i|] eqn:Hm.
    + injection H as <- <-. apply memchr_lt in Hm.
      unfold consume; cbn [br_buf br_inner].
      rewrite Hs1, Hb1. split.
      * rewrite <- !app_assoc, (app_assoc (firstn (S i) a)), firstn_skipn.
        reflexivity.
      * rewrite length_skipn. lia.
    + destruct (Nat.eqb (length a) 0) eqn:Hz.
      * injection H as <- <-. apply Nat.eqb_eq, length_zero_iff_nil in Hz.
        subst a. unfold consume; cbn [br_buf br_inner]. rewrite Hs1, Hb1.
        split; [reflexivity|]. cbn. unfold DEFAULT_BUF_SIZE; lia.
      * apply IH in H.
        -- destruct H as [Heq Hl']. split; [|exact Hl'].
           rewrite <- Heq. unfold consume; cbn [br_buf br_inner].
           rewrite Hs1, Hb1, skipn_all.
           rewrite <- app_assoc. reflexivity.
        -- unfold consume; cbn [br_buf br_inner]. rewrite Hb1, skipn_all.
           cbn. unfold DEFAULT_BUF_SIZE; lia.
Qed.

Lemma first_line_reader s :
  snd (first_line s) = snd (read_until 10 (bufreader_new s)).
Proof.
  unfold first_line, lines_next.
  destruct (read_until 10 (bufreader_new s)) as [[bs|e] r'];
    [destruct bs; [reflexivity|]; destruct (utf8_decode _)|]; reflexivity.
Qed.

Lemma request_new_reads_only_first_line_counterexample :
  ~ (forall s line rest,
       stream_bytes s = line ++ [10%N] ++ rest ->
       memchr 10 line = None ->
       stream_bytes (snd (request_new s)) = rest).
Proof.
  intros H.
  pose proof (H (demo_stream "GET / HTTP/1.1") (s2l "GET / HTTP/1.1" ++ [13%N])
                (s2l "Host: x" ++ CRLF ++ CRLF)) as C.
  assert (A : stream_bytes (demo_stream "GET / HTTP/1.1")
              = (s2l "GET / HTTP/1.1" ++ [13%N]) ++ [10%N]
                ++ (s2l "Host: x" ++ CRLF ++ CRLF))
    by (vm_compute; reflexivity).
  assert (B : memchr 10 (s2l "GET / HTTP/1.1" ++ [13%N]) = None)
    by (vm_compute; reflexivity).
  specialize (C A B). vm_compute in C. discriminate.
Qed.

(** C8 (corrected): [Request::new] reads the connection through a
    [BufReader] in reads of at most [DEFAULT_BUF_SIZE] (8 KiB) bytes and
    drops it on return. When the request line is read, the connection's
    bytes are that line (up to and including its ["\n"]), then the bytes the
    last read delivered past it (fewer than 8 KiB, buffered and discarded),
    then what is left unread on the connection. *)
Theorem request_new_consumes_whole_reads (s : tcp) (bs : list N) (r : bufreader) :
  read_until 10 (bufreader_new s) = (Ok bs, r) ->
  snd (request_new s) = br_inner r /\
  stream_bytes s = bs ++ br_buf r ++ stream_bytes (br_inner r) /\
  length (br_buf r) < DEFAULT_BUF_SIZE.
Proof.
  intros H. split.
  - unfold request_new. pose proof (first_line_reader s) as Hr.
    destruct (first_line s) as [next r0]. simpl in *. rewrite Hr, H. reflexivity.
  - unfold read_until in H.
    apply read_until_loop_bytes in H; [|simpl; unfold DEFAULT_BUF_SIZE; lia].
    simpl in H. exact H.
Qed.

Lemma request_new_consumes_whole_reads_witness :
  snd (request_new (demo_stream "GET / HTTP/1.1")) = [] /\
  stream_bytes (demo_stream "GET / HTTP/1.1")
  = (s2l "GET / HTTP/1.1" ++ CRLF) ++ (s2l "Host: x" ++ CRLF ++ CRLF) ++ [] /\
  length (s2l "Host: x" ++ CRLF ++ CRLF) < DEFAULT_BUF_SIZE.
Proof.
  apply (request_new_consumes_whole_reads (demo_stream "GET / HTTP/1.1")
           (s2l "GET / HTTP/1.1" ++ CRLF)
           {| br_buf := s2l "Host: x" ++ CRLF ++ CRLF; br_inner := [] |}).
  vm_compute. reflexivity.
Defined.

(* ------------------------------------------------------------------ *)
(** ** Responses *)

Lemma handle_connection_found e s req p :
  fst (request_new s) = Ok req -> fst (path_exists e req) = Some p ->
  forall f, file_open e (true, p) = Ok f ->
  handle_connection e s
  = {| res := fst (send_file (s2l "HTTP/1.1 200 Ok") f);
       written := snd (send_file (s2l "HTTP/1.1 200 Ok") f);
       logs := snd (path_exists e req) |}.
Proof.
  intros Hr Hp f Hf. unfold handle_connection. rewrite Hr.
  destruct (path_exists e req) as [found out]. simpl in Hp. subst found.
  cbn [fst snd]. rewrite Hf.
  replace (s2l "HTTP/1.1 " ++ s2l "200 Ok") with (s2l "HTTP/1.1 200 Ok")
    by reflexivity.
  destruct (send_file _ f); reflexivity.
Qed.

Lemma handle_connection_missing e s req :
  fst (request_new s) = Ok req -> fst (path_exists e req) = None ->
  handle_connection e s
  = match file_open e error404_path with
    | Err err => {| res := Err (Io err); written := [];
                    logs := snd (path_exists e req) |}
    | Ok f => {| res := fst (send_file (s2l "HTTP/1.1 404 NOT FOUND") f);
                 written := snd (send_file (s2l "HTTP/1.1 404 NOT FOUND") f);
                 logs := snd (path_exists e req) |}
    end.
Proof.
  intros Hr Hp. unfold handle_connection. rewrite Hr.
  destruct (path_exists e req) as [found out]. simpl in Hp. subst found.
  cbn [fst snd].
  replace (s2l "HTTP/1.1 " ++ s2l "404 NOT FOUND") with (s2l "HTTP/1.1 404 NOT FOUND")
    by reflexivity.
  destruct (file_open e error404_path); [destruct (send_file _ _)|]; reflexivity.
Qed.





(** C7: when the base directory cannot be canonicalized, [path_exists]
    returns [None] and prints the error on standard error (after the usual
    request line on standard output); [handle_connection] then takes the
    404 branch, whose bytes depend on the fallback file only. *)
Theorem path_exists_base_failure (e : env) (req : Request) (err : io_error) :
  canonicalize e base_dir_relative = Err err ->
  path_exists e req
  = (None, [Stdout (s2l "The request is: " ++ display_request req);
            Stderr (s2l "BASE_DIR cannot be canonicalized: " ++ io_error_msg err)]) /\
  (forall s, fst (request_new s) = Ok req ->
     written (handle_connection e s) = not_found_response e).
Proof.
  intros Hb.
  assert (Hp : path_exists e req
               = (None, [Stdout (s2l "The request is: " ++ display_request req);
                         Stderr (s2l "BASE_DIR cannot be canonicalized: "
                                 ++ io_error_msg err)])).
  { unfold path_exists. rewrite Hb. reflexivity. }
  split; [exact Hp|].
  intros s Hr. rewrite (handle_connection_missing e s req Hr) by (rewrite Hp; reflexivity).
  unfold not_found_response. destruct (file_open e error404_path); reflexivity.
Qed.

Lemma path_exists_base_failure_witness :
  path_exists bare_env (get "/")
  = (None, [Stdout (s2l "The request is: " ++ display_request (get "/"));
            Stderr (s2l "BASE_DIR cannot be canonicalized: " ++ io_error_msg NotFound)]) /\
  written (handle_connection bare_env (demo_stream "GET / HTTP/1.1"))
  = not_found_response bare_env.
Proof.
  destruct (path_exists_base_failure bare_env (get "/") NotFound) as [H1 H2];
    [vm_compute; reflexivity|].
  split; [exact H1 | apply H2; vm_compute; reflexivity].
Defined.

(* ------------------------------------------------------------------ *)
(** ** Totality of normalization and the unused error variant *)

(** C9: the two [splitn(2, _).next().unwrap()] calls of
    [normalize_path_string] never panic: for every text, [splitn] with a
    positive count yields a first piece, which for [splitn(2, c)] is the
    text before the first [c]. [normalize_path_string] therefore returns,
    and never returns [None], so the [?] on its result in [path_exists]
    never fires: once the base directory is canonical, [None] comes only
    from canonicalizing the candidate, from the prefix check or from the
    regular-file check. *)
Theorem normalize_path_string_total :
  (forall n c s, iter_next (str_splitn (S n) c s) <> None) /\
  (forall c s, iter_next (str_splitn 2 c s) = Some (before_char c s)) /\
  (forall raw, normalize_path_string raw <> None) /\
  (forall e req base,
     canonicalize e base_dir_relative = Ok base ->
     fst (path_exists e req) = None ->
     match canonicalize e (true, base ++ routing_key (url req) ++ [s2l "index.html"]) with
     | Err _ => True
     | Ok q => starts_with q base = false \/ is_file e q = false
     end).
Proof.
  split; [|split; [exact iter_next_splitn2 | split]].
  - intros [|n] c s; simpl; [discriminate|].
    destruct (split_at_char c s) as [[b a]|]; discriminate.
  - intros raw. rewrite normalize_path_string_key. discriminate.
  - intros e req base Hb Hp. unfold path_exists in Hp.
    rewrite Hb, normalize_path_string_key in Hp.
    destruct (canonicalize e (true, base ++ routing_key (url req) ++ [s2l "index.html"]))
      as [q|err]; [|exact I].
    destruct (starts_with q base); [right | left; reflexivity].
    destruct (is_file e q); [discriminate | reflexivity].
Qed.

Lemma normalize_path_string_total_witness :
  match canonicalize demo_env
          (true, [s2l "srv"; s2l "pages"] ++ routing_key (s2l "/../../etc/passwd")
           ++ [s2l "index.html"]) with
  | Err _ => True
  | Ok q => starts_with q [s2l "srv"; s2l "pages"] = false
            \/ is_file demo_env q = false
  end.
Proof.
  apply (proj2 (proj2 (proj2 normalize_path_string_total)) demo_env (get "/../../etc/passwd"));
    vm_compute; reflexivity.
Defined.

Lemma parse_request_line_not_invalid_url line :
  parse_request_line line <> Err InvalidURL.
Proof.
  unfold parse_request_line.
  destruct (negb (Nat.eqb _ 3)); [discriminate|].
  destruct (negb (_ && _)); discriminate.
Qed.

(** C10: [InvalidURL] is never produced: not by [Request::new], not by
    [handle_connection]; [path_exists] reports failure only as [None]. *)
Theorem invalid_url_never_produced :
  (forall s, fst (request_new s) <> Err InvalidURL) /\
  (forall e s, res (handle_connection e s) <> Err InvalidURL).
Proof.
  assert (Hnew : forall s, fst (request_new s) <> Err InvalidURL).
  { intros s. unfold request_new. destruct (first_line s) as [next r]. simpl.
    destruct next as [[line|err]|]; [apply parse_request_line_not_invalid_url
                                    | discriminate | discriminate]. }
  split; [exact Hnew|].
  intros e s. unfold handle_connection.
  destruct (fst (request_new s)) as [req|err] eqn:Hr.
  - destruct (path_exists e req) as [[u|] out]; simpl.
    + destruct (file_open e (true, u)) as [[c|]|err]; simpl; discriminate.
    + destruct (file_open e error404_path) as [[c|]|err]; simpl; discriminate.
  - simpl. intros H. injection H as ->. exact (Hnew s Hr).
Qed.

(* ------------------------------------------------------------------ *)
(** ** Reading the header lines: [get_request] *)

Lemma memchr_line l X :
  (forall x, In x l -> x <> 10%N) ->
  memchr 10 (l ++ 13%N :: 10%N :: X) = Some (S (length l)).
Proof.
  induction l as [|a l IH]; intros H; [reflexivity|].
  simpl. replace (a =? 10)%N with false
    by (symmetry; apply N.eqb_neq; apply H; left; reflexivity).
  rewrite IH by (intros x Hx; apply H; right; exact Hx). reflexivity.
Qed.

Lemma utf8_decode_ascii bs :
  (forall x, In x bs -> (x < 128)%N) -> utf8_decode bs = Some bs.
Proof.
  induction bs as [|b bs IH]; intros H; [reflexivity|].
  simpl. replace (b <? 128)%N with true
    by (symmetry; apply N.ltb_lt; apply H; left; reflexivity).
  rewrite IH by (intros x Hx; apply H; right; exact Hx). reflexivity.
Qed.

Lemma strip_newline_crlf l : strip_newline (l ++ [13%N; 10%N]) = l.
Proof.
  unfold strip_newline, ends_with.
  replace (l ++ [13%N; 10%N]) with ((l ++ [13%N]) ++ [10%N])
    by (rewrite <- app_assoc; reflexivity).
  rewrite rev_unit. simpl (10 =? 10)%N. cbv iota beta.
  rewrite removelast_last, rev_unit. simpl (13 =? 13)%N. cbv iota beta.
  apply removelast_last.
Qed.

Lemma firstn_skipn_prefix (l1 l2 : list N) :
  firstn (length l1) (l1 ++ l2) = l1 /\ skipn (length l1) (l1 ++ l2) = l2.
Proof.
  induction l1 as [|a l1 IH]; [split; reflexivity|].
  simpl. destruct IH as [H1 H2]. rewrite H1, H2. split; reflexivity.
Qed.

Lemma fill_buf_nonempty r : br_buf r <> [] -> fill_buf r = (Ok (br_buf r), r).
Proof.
  intros H. unfold fill_buf. destruct (br_buf r) eqn:E; [contradiction | reflexivity].
Qed.

(** One CRLF-terminated ASCII line in the buffer is one [Lines] item. *)
Lemma lines_next_crlf r l X inner :
  (forall x, In x l -> (x < 128)%N /\ x <> 10%N) ->
  fill_buf r = (Ok (l ++ 13%N :: 10%N :: X),
                {| br_buf := l ++ 13%N :: 10%N :: X; br_inner := inner |}) ->
  lines_next r = (Some (Ok l), {| br_buf := X; br_inner := inner |}).
Proof.
  intros Hl Hf. unfold lines_next, read_until.
  cbn [read_until_loop]. rewrite Hf.
  rewrite memchr_line by (intros x Hx; apply Hl; exact Hx).
  replace (S (S (length l))) with (length (l ++ [13%N; 10%N]))
    by (rewrite length_app; simpl; lia).
  replace (l ++ 13%N :: 10%N :: X) with ((l ++ [13%N; 10%N]) ++ X)
    by (rewrite <- app_assoc; reflexivity).
  destruct (firstn_skipn_prefix (l ++ [13%N; 10%N]) X) as [H1 H2].
  unfold consume; cbn [br_buf br_inner]. rewrite H1, H2, app_nil_l.
  assert (Hd : utf8_decode (l ++ [13%N; 10%N]) = Some (l ++ [13%N; 10%N])).
  { apply utf8_decode_ascii. intros x Hx. apply in_app_or in Hx.
    destruct Hx as [Hx|Hx]; [apply Hl; exact Hx|].
    simpl in Hx. destruct Hx as [<-|[<-|[]]]; reflexivity. }
  set (B := l ++ [13%N; 10%N]) in *.
  assert (HB : strip_newline B = l) by apply strip_newline_crlf.
  destruct B as [|b bs] eqn:EB.
  - subst B. destruct l; discriminate.
  - rewrite Hd, HB. reflexivity.
Qed.

Lemma header_bytes_cons l ls rest :
  header_bytes (l :: ls) rest = l ++ 13%N :: 10%N :: header_bytes ls rest.
Proof. unfold header_bytes. simpl. rewrite <- !app_assoc. reflexivity. Qed.

Lemma header_bytes_nonempty ls rest : header_bytes ls rest <> [].
Proof.
  destruct ls as [|l ls]; [discriminate|].
  rewrite header_bytes_cons. destruct l; discriminate.
Qed.

Lemma header_bytes_length ls rest : length ls <= length (header_bytes ls rest).
Proof.
  induction ls as [|l ls IH]; [simpl; lia|].
  rewrite header_bytes_cons, length_app. simpl. lia.
Qed.

Lemma collect_lines_headers ls rest inner :
  Forall line_ok ls ->
  forall fuel r, length ls < fuel ->
  fill_buf r = (Ok (header_bytes ls rest),
                {| br_buf := header_bytes ls rest; br_inner := inner |}) ->
  collect_lines fuel r = Some ls.
Proof.
  induction 1 as [|l ls [Hne Hl] _ IH]; intros fuel r Hfuel Hf;
    (destruct fuel as [|fuel]; [simpl in Hfuel; lia|]).
  - simpl. rewrite (lines_next_crlf r [] rest inner); [reflexivity | simpl; tauto | exact Hf].
  - rewrite header_bytes_cons in Hf. simpl collect_lines.
    rewrite (lines_next_crlf r l (header_bytes ls rest) inner Hl Hf).
    destruct l as [|a l]; [contradiction|]. cbn [is_empty].
    rewrite (IH fuel); [reflexivity | simpl in Hfuel; lia|].
    apply fill_buf_nonempty. apply header_bytes_nonempty.
Qed.

Lemma line_okb_ok l : line_okb l = true -> line_ok l.
Proof.
  unfold line_okb. intros H. apply andb_prop in H. destruct H as [Hn Hf].
  split; [destruct l; discriminate|].
  intros x Hx. rewrite forallb_forall in Hf. specialize (Hf x Hx).
  apply andb_prop in Hf. destruct Hf as [H1 H2].
  split; [apply N.ltb_lt; exact H1|]. apply N.eqb_neq. destruct (x =? 10)%N; [discriminate|reflexivity].
Qed.

(** X1: on a connection whose first read delivers header lines (non-empty
    ASCII without a line feed), each ended by CRLF, then the blank line and
    possibly the start of a body, [get_request] returns exactly those
    lines, without their CRLF, the blank line or any byte after it, whatever
    the connection delivers afterwards. *)
Theorem get_request_header_lines (ls : list (list N)) (rest : list N) (more : tcp) :
  Forall line_ok ls ->
  length (header_bytes ls rest) <= DEFAULT_BUF_SIZE ->
  get_request (Data (header_bytes ls rest) :: more) = Some ls.
Proof.
  intros Hls Hlen. unfold get_request.
  apply (collect_lines_headers ls rest more Hls).
  - pose proof (header_bytes_length ls rest). simpl. lia.
  - unfold fill_buf, bufreader_new. cbn [br_buf br_inner]. unfold tcp_read.
    rewrite (proj2 (Nat.leb_le _ _) Hlen). reflexivity.
Qed.

Lemma get_request_header_lines_witness :
  get_request [Data (header_bytes [s2l "GET / HTTP/1.1"; s2l "Host: x"] (s2l "body"));
               Broken ConnectionReset]
  = Some [s2l "GET / HTTP/1.1"; s2l "Host: x"].
Proof.
  apply get_request_header_lines.
  - apply Forall_forall. intros l Hl. apply line_okb_ok. revert l Hl.
    apply forallb_forall. vm_compute. reflexivity.
  - vm_compute. lia.
Defined.

(* ------------------------------------------------------------------ *)
(** ** The loop of [main] *)

Lemma serve_app pre post :
  serve (pre ++ post)
  = if snd (serve pre) then serve pre
    else (fst (serve pre) ++ fst (serve post), snd (serve post)).
Proof.
  induction pre as [|[s room|] pre IH]; simpl.
  - destruct (serve post); reflexivity.
  - destruct (get_request s) as [h|]; [|reflexivity].
    destruct (write_all room write_connection_response) as [[u|err] sent]; [|reflexivity].
    rewrite IH. destruct (serve pre) as [ws p]. simpl.
    destruct p; [reflexivity|]. destruct (serve post); reflexivity.
  - exact IH.
Qed.





(** X3: a connection on which reading the header lines panics (a failed
    read or a line that is not UTF-8) ends [main]: no connection accepted
    after it is ever answered, and it gets no response itself. *)
Theorem serve_panic_stops (pre post : list connection_attempt) (s : tcp)
    (room : option nat) :
  snd (serve pre) = false ->
  get_request s = None ->
  serve (pre ++ Accepted s room :: post) = (fst (serve pre), true).
Proof.
  intros Hp Hs. rewrite serve_app, Hp. simpl. rewrite Hs. rewrite app_nil_r. reflexivity.
Qed.

Lemma serve_panic_stops_witness :
  serve ([Accepted (demo_stream "GET / HTTP/1.1") None]
         ++ Accepted [Data [255%N; 10%N]] None
         :: [Accepted (demo_stream "GET / HTTP/1.1") None])
  = (fst (serve [Accepted (demo_stream "GET / HTTP/1.1") None]), true).
Proof.
  apply serve_panic_stops; vm_compute; reflexivity.
Defined.

(** X9: a connection reset before it takes the whole response makes the
    [unwrap] of [write_connection_response] panic: that client gets only
    the part of the response that fit, and no connection accepted after it
    is ever answered. *)
Theorem serve_write_failure_stops (pre post : list connection_attempt) (s : tcp)
    (k : nat) :
  snd (serve pre) = false ->
  get_request s <> None ->
  k < length write_connection_response ->
  serve (pre ++ Accepted s (Some k) :: post)
  = (fst (serve pre) ++ [firstn k write_connection_response], true).
Proof.
  intros Hp Hs Hk.
  assert (Hw : write_all (Some k) write_connection_response
               = (Err ConnectionReset, firstn k write_connection_response)).
  { unfold write_all. rewrite (proj2 (Nat.leb_gt _ _) Hk). reflexivity. }
  rewrite serve_app, Hp. cbn [serve fst snd].
  destruct (get_request s); [|contradiction]. rewrite Hw. reflexivity.
Qed.

Lemma serve_write_failure_stops_witness :
  serve ([Accepted (demo_stream "GET / HTTP/1.1") None]
         ++ Accepted (demo_stream "GET / HTTP/1.1") (Some 5)
         :: [Accepted (demo_stream "GET / HTTP/1.1") None])
  = (fst (serve [Accepted (demo_stream "GET / HTTP/1.1") None])
     ++ [firstn 5 write_connection_response], true).
Proof.
  apply serve_write_failure_stops; vm_compute; [reflexivity | discriminate | lia].
Defined.
(* ------------------------------------------------------------------ *)
(** ** [send_response_header] *)





(* ------------------------------------------------------------------ *)
(** ** The fields of a parsed [Request] and its [Display] *)

Lemma split_on_no_sep p a :
  (forall x, In x a -> p x = false) -> split_on p a = [a].
Proof.
  induction a as [|c a IH]; intros H; [reflexivity|].
  simpl. rewrite (H c (or_introl eq_refl)).
  rewrite IH by (intros x Hx; apply H; right; exact Hx). reflexivity.
Qed.

Lemma split_on_sep p a c b :
  (forall x, In x a -> p x = false) -> p c = true ->
  split_on p (a ++ c :: b) = a :: split_on p b.
Proof.
  intros Ha Hc. induction a as [|x a IH]; simpl; [rewrite Hc; reflexivity|].
  rewrite (Ha x (or_introl eq_refl)).
  rewrite IH by (intros y Hy; apply Ha; right; exact Hy). reflexivity.
Qed.

Lemma split_on_pieces p s :
  forall w, In w (split_on p s) -> forall x, In x w -> p x = false.
Proof.
  induction s as [|c r IH]; simpl.
  - intros w [<-|[]] x [].
  - destruct (p c) eqn:Hc.
    + intros w [<-|Hw]; [intros x []|exact (IH w Hw)].
    + destruct (split_on p r) as [|w' ws].
      * intros w [<-|[]] x [<-|[]]. exact Hc.
      * intros w [<-|Hw].
        -- intros x [<-|Hx]; [exact Hc|]. apply (IH w'); [left; reflexivity | exact Hx].
        -- apply IH. right. exact Hw.
Qed.

Lemma no_ascii_whitespace_of_forallb a :
  forallb (fun x => negb (is_ascii_whitespace x)) a = true ->
  forall x, In x a -> is_ascii_whitespace x = false.
Proof.
  intros H x Hx. rewrite forallb_forall in H. specialize (H x Hx).
  destruct (is_ascii_whitespace x); [discriminate | reflexivity].
Qed.

Lemma trim_start_suffix s : exists pre, s = pre ++ trim_start s.
Proof.
  induction s as [|c s IH]; [exists []; reflexivity|]. simpl.
  destruct (is_whitespace c).
  - destruct IH as [pre Hp]. exists (c :: pre). simpl. f_equal. exact Hp.
  - exists []. reflexivity.
Qed.

Lemma trim_start_head s c :
  hd_error (trim_start s) = Some c -> is_whitespace c = false.
Proof.
  induction s as [|x s IH]; simpl; [discriminate|].
  destruct (is_whitespace x) eqn:Hx; [exact IH|].
  simpl. intros H. injection H as <-. exact Hx.
Qed.

Lemma trim_start_in s x : In x (trim_start s) -> In x s.
Proof.
  destruct (trim_start_suffix s) as [pre Hp]. intros H.
  rewrite Hp. apply in_or_app. right. exact H.
Qed.

Lemma trim_in s x : In x (trim s) -> In x s.
Proof.
  unfold trim, trim_end. intros H.
  apply (proj2 (in_rev _ _)) in H. apply trim_start_in in H.
  apply (proj2 (in_rev _ _)) in H.
  apply trim_start_in in H. exact H.
Qed.

Lemma trim_idem s : trim (trim s) = trim s.
Proof.
  apply trim_id.
  - intros c Hc. set (a := trim_start s).
    destruct (trim_start_suffix (rev a)) as [pre Hp].
    assert (Ha : a = trim s ++ rev pre).
    { rewrite <- (rev_involutive a) at 1. rewrite Hp at 1.
      rewrite rev_app_distr. reflexivity. }
    destruct (trim s) as [|d t]; simpl in Hc; [discriminate|].
    injection Hc as ->. apply (trim_start_head s). fold a. rewrite Ha. reflexivity.
  - intros c Hc. unfold trim, trim_end in Hc. rewrite rev_involutive in Hc.
    exact (trim_start_head _ _ Hc).
Qed.

Lemma request_new_ok s req :
  fst (request_new s) = Ok req -> exists line, parse_request_line line = Ok req.
Proof.
  unfold request_new. destruct (first_line s) as [[[line|err]|] r]; simpl;
    try discriminate.
  intros H. exists line. exact H.
Qed.

Lemma parse_request_line_fields line req :
  parse_request_line line = Ok req ->
  method req = s2l "GET" /\ version req = s2l "HTTP/1.1" /\
  exists w, In w (split_on is_ascii_whitespace line) /\ url req = trim w.
Proof.
  intros H. unfold parse_request_line in H.
  destruct (split_ascii_whitespace line) as [|a [|b [|c [|d l]]]] eqn:E;
    cbn [map length Nat.eqb negb] in H; try discriminate H.
  cbn [nth] in H.
  destruct (str_eqb (trim a) (s2l "GET") && str_eqb (trim c) (s2l "HTTP/1.1")) eqn:Hb;
    cbn [negb] in H; [|discriminate H].
  injection H as <-. apply andb_prop in Hb. destruct Hb as [Ha Hc].
  apply str_eqb_eq in Ha, Hc. cbn [method version url].
  split; [exact Ha|]. split; [exact Hc|]. exists b. split; [|reflexivity].
  assert (Hin : In b (split_ascii_whitespace line)) by (rewrite E; right; left; reflexivity).
  unfold split_ascii_whitespace in Hin. apply filter_In in Hin. exact (proj1 Hin).
Qed.

Lemma request_new_fields_aux s req :
  fst (request_new s) = Ok req ->
  method req = s2l "GET" /\ version req = s2l "HTTP/1.1" /\
  (forall x, In x (url req) -> is_ascii_whitespace x = false) /\
  trim (url req) = url req.
Proof.
  intros Hr. destruct (request_new_ok s req Hr) as [line Hl].
  destruct (parse_request_line_fields line req Hl) as (Hm & Hv & w & Hw & Hu).
  split; [exact Hm|]. split; [exact Hv|]. rewrite Hu. split.
  - intros x Hx. apply trim_in in Hx. exact (split_on_pieces _ _ w Hw x Hx).
  - apply trim_idem.
Qed.

(** X6: a [Request] built by [Request::new] has method exactly [GET] and
    version exactly [HTTP/1.1]; its url contains no ASCII whitespace and
    neither starts nor ends with (Unicode) whitespace. *)
Theorem request_new_fields (s : tcp) (req : Request) :
  fst (request_new s) = Ok req ->
  method req = s2l "GET" /\ version req = s2l "HTTP/1.1" /\
  (forall x, In x (url req) -> is_ascii_whitespace x = false) /\
  trim (url req) = url req.
Proof. apply request_new_fields_aux. Qed.

Lemma request_new_fields_witness :
  method (get "/docs?x=1#top") = s2l "GET" /\
  version (get "/docs?x=1#top") = s2l "HTTP/1.1" /\
  (forall x, In x (url (get "/docs?x=1#top")) -> is_ascii_whitespace x = false) /\
  trim (url (get "/docs?x=1#top")) = url (get "/docs?x=1#top").
Proof.
  apply (request_new_fields (demo_stream "GET /docs?x=1#top HTTP/1.1")).
  vm_compute. reflexivity.
Defined.

(** X7: the [Display] text of a [Request] built by [Request::new] with a
    non-empty url, used as a request line, parses back to the same
    [Request]. *)
Theorem display_request_round_trip (s : tcp) (req : Request) :
  fst (request_new s) = Ok req ->
  url req <> [] ->
  parse_request_line (display_request req) = Ok req.
Proof.
  intros Hr Hne. destruct (request_new_fields_aux s req Hr) as (Hm & Hv & Hws & Ht).
  destruct req as [u m v]. cbn [url method version] in *. subst m v.
  assert (HG : forall x, In x (s2l "GET") -> is_ascii_whitespace x = false)
    by (apply no_ascii_whitespace_of_forallb; vm_compute; reflexivity).
  assert (HH : forall x, In x (s2l "HTTP/1.1") -> is_ascii_whitespace x = false)
    by (apply no_ascii_whitespace_of_forallb; vm_compute; reflexivity).
  assert (Hs : split_ascii_whitespace
                 (display_request {| url := u; method := s2l "GET";
                                     version := s2l "HTTP/1.1" |})
               = [s2l "GET"; u; s2l "HTTP/1.1"]).
  { unfold split_ascii_whitespace.
    replace (display_request {| url := u; method := s2l "GET"; version := s2l "HTTP/1.1" |})
      with (s2l "GET" ++ 32%N :: u ++ 32%N :: s2l "HTTP/1.1") by reflexivity.
    rewrite (split_on_sep _ (s2l "GET") 32 _ HG eq_refl).
    rewrite (split_on_sep _ u 32 _ Hws eq_refl).
    rewrite (split_on_no_sep _ (s2l "HTTP/1.1") HH).
    destruct u as [|c u']; [contradiction|]. reflexivity. }
  unfold parse_request_line. rewrite Hs. cbn [map length nth Nat.eqb negb].
  rewrite Ht.
  replace (trim (s2l "GET")) with (s2l "GET") by reflexivity.
  replace (trim (s2l "HTTP/1.1")) with (s2l "HTTP/1.1") by reflexivity.
  rewrite !str_eqb_refl. reflexivity.
Qed.

Lemma display_request_round_trip_witness :
  parse_request_line (display_request (get "/docs?x=1#top")) = Ok (get "/docs?x=1#top").
Proof.
  apply (display_request_round_trip (demo_stream "GET /docs?x=1#top HTTP/1.1"));
    vm_compute; [reflexivity | discriminate].
Defined.

(** The url may be empty (the middle token a lone U+000B), and then the
    [Display] text no longer splits into three tokens. *)
Example request_new_empty_url :
  fst (request_new [Data (s2l "GET " ++ [11%N] ++ s2l " HTTP/1.1" ++ CRLF)])
  = Ok {| url := []; method := s2l "GET"; version := s2l "HTTP/1.1" |} /\
  parse_request_line (display_request {| url := []; method := s2l "GET";
                                         version := s2l "HTTP/1.1" |})
  = Err InvalidLength.
Proof. split; vm_compute; reflexivity. Qed.

(* ------------------------------------------------------------------ *)
(** ** What [handle_connection] sends and prints *)

(** X8: a request that [Request::new] rejects gets no bytes and no log
    line; whenever [handle_connection] returns [Ok] it has written one
    complete response, [200 Ok] or [404 NOT FOUND], whose [Content-Length]
    is the exact length of the body that follows. *)
Theorem handle_connection_framing (e : env) (s : tcp) :
  (forall err, fst (request_new s) = Err err ->
     handle_connection e s = {| res := Err err; written := []; logs := [] |}) /\
  (res (handle_connection e s) = Ok tt ->
   exists st c, (st = s2l "200 Ok" \/ st = s2l "404 NOT FOUND") /\
     written (handle_connection e s)
     = response_head (s2l "HTTP/1.1 " ++ st) (N.of_nat (length c)) ++ c).
Proof.
  split.
  { intros err Hr. unfold handle_connection. rewrite Hr. reflexivity. }
  destruct (fst (request_new s)) as [req|err] eqn:Hr.
  - destruct (fst (path_exists e req)) as [p|] eqn:Hp.
    + destruct (path_exists_some_file e req p Hp) as (c & _ & Hf).
      rewrite (handle_connection_found e s req p Hr Hp _ Hf).
      unfold send_file, file_len. cbn [res written fst snd].
      intros _. exists (s2l "200 Ok"), c. split; [left; reflexivity | reflexivity].
    + rewrite (handle_connection_missing e s req Hr Hp).
      destruct (file_open e error404_path) as [[c|]|err];
        unfold send_file, file_len; cbn [res written fst snd];
        intros H; try discriminate H.
      exists (s2l "404 NOT FOUND"), c. split; [right; reflexivity | reflexivity].
  - unfold handle_connection. rewrite Hr. cbn [res]. intros H. discriminate H.
Qed.

Lemma handle_connection_framing_witness :
  handle_connection demo_env [Data (s2l "BREW / HTTP/1.1" ++ CRLF)]
  = {| res := Err InvalidHeader; written := []; logs := [] |} /\
  exists st c, (st = s2l "200 Ok" \/ st = s2l "404 NOT FOUND") /\
    written (handle_connection demo_env (demo_stream "GET /docs HTTP/1.1"))
    = response_head (s2l "HTTP/1.1 " ++ st) (N.of_nat (length c)) ++ c.
Proof.
  split.
  - apply (proj1 (handle_connection_framing demo_env
                    [Data (s2l "BREW / HTTP/1.1" ++ CRLF)])).
    vm_compute. reflexivity.
  - apply (proj2 (handle_connection_framing demo_env
                    (demo_stream "GET /docs HTTP/1.1"))).
    vm_compute. reflexivity.
Defined.
